(** * workflows-go: a shallow embedding of the event-driven workflow engine

    The Go package [workflowsgo] (src/main.go) defines events, a context
    and a workflow whose [Run] method dispatches step functions until an
    event names the reserved step ["end"].

    Modelling choices, all taken from the Go source:

    - a Go [map] is a reference: two variables may denote the same map
      object, and the zero value of a map type is the nil map, which reads
      as empty and panics on assignment.  The maps of a context are
      therefore references ([mapref]) into a heap of map objects;
    - an event is never written by the package after its construction, so
      its payload is kept by value (a nil payload reads as the empty map);
    - [any] is a small universe of dynamically typed values;
    - a step function is a Go closure with arbitrary effects on the
      context: it is a total function on the event, the context fields and
      the heap of map objects;
    - the three callbacks of [Run] are observers: closures over variables
      of their own (the test suite appends to slices), so each is a
      function on an observer state that [Run] threads through;
    - [Run] is an unbounded [for] loop: the embedding takes a fuel argument
      and answers [None] when the fuel does not suffice. *)

From Stdlib Require Import Strings.Ascii.
From stdpp Require Import gmap strings list fin_maps functions.

Open Scope string_scope.
Open Scope nat_scope.

(** ** Values *)

(** Go's [any]: the nil interface value or a boxed value of a concrete type. *)
Inductive any : Type :=
| AnyNil
| AnyString (s : string)
| AnyInt (n : Z)
| AnyBool (b : bool).

(** Go's [error]: [None] is the nil error, [Some msg] is [errors.New(msg)]. *)
Definition error : Type := option string.

Definition errors_New (msg : string) : error := Some msg.

(** ** Events *)

(** [type BaseEvent struct { NextStep string; Data map[string]string }] *)
Record BaseEvent : Type := mkBaseEvent {
  NextStep : string;
  Data : gmap string string
}.

(** [func (ev *BaseEvent) Get(key string) (val any, success bool)]:
    [val, success = ev.Data[key]].  For a missing key the comma-ok form
    yields the zero value of the element type, the empty string, which the
    assignment boxes into [any]. *)
Definition Get (ev : BaseEvent) (key : string) : any * bool :=
  match Data ev !! key with
  | Some v => (AnyString v, true)
  | None => (AnyString "", false)
  end.

(** [func NewBaseEvent(followingStep string, data map[string]string) *BaseEvent] *)
Definition NewBaseEvent (followingStep : string) (data : gmap string string) : BaseEvent :=
  {| Data := data; NextStep := followingStep |}.

(** ** Map objects and the context *)

(** A map variable holds [None], the nil map, or the address of a map
    object.  Every address denotes one map object; [heap] gives its
    current contents. *)
Abbreviation loc := positive (only parsing).
Abbreviation mapref := (option loc) (only parsing).
Abbreviation heap := (loc → gmap string any) (only parsing).

(** Reading through a map variable: the nil map reads as the empty map. *)
Definition deref (h : heap) (m : mapref) : gmap string any :=
  match m with
  | None => ∅
  | Some l => h l
  end.

(** A Go call either returns or panics. *)
Inductive outcome (A : Type) : Type :=
| Returns (a : A)
| Panics (msg : string).
Arguments Returns {A} a.
Arguments Panics {A} msg.

(** [type BaseContext struct { Store map[string]any; State map[string]any }] *)
Record BaseContext : Type := mkBaseContext {
  Store : mapref;
  State : mapref
}.

(** [func NewBaseContext(store, state map[string]any) *BaseContext] *)
Definition NewBaseContext (store state : mapref) : BaseContext :=
  {| Store := store; State := state |}.

(** [func (ctx *BaseContext) StoreValue(key string, val any)]:
    [ctx.Store[key] = val].  The assignment writes the map object behind
    [ctx.Store]; on the nil map it panics. *)
Definition StoreValue (ctx : BaseContext) (key : string) (val : any) (h : heap)
  : outcome heap :=
  match Store ctx with
  | None => Panics "assignment to entry in nil map"
  | Some l => Returns (<[l := <[key := val]> (h l)]> h)
  end.

(** [func (ctx *BaseContext) GetValue(key string) (val any, success bool)]:
    [val, success = ctx.Store[key]]; the zero value of [any] is nil. *)
Definition GetValue (ctx : BaseContext) (key : string) (h : heap) : any * bool :=
  match deref h (Store ctx) !! key with
  | Some v => (v, true)
  | None => (AnyNil, false)
  end.

(** [func (ctx *BaseContext) GetState() map[string]any]: the map variable
    itself, not a copy of the map object. *)
Definition GetState (ctx : BaseContext) : mapref := State ctx.

(** [func (ctx *BaseContext) SetState(state map[string]any)]:
    [ctx.State = state]. *)
Definition SetState (ctx : BaseContext) (state : mapref) : BaseContext :=
  {| Store := Store ctx; State := state |}.

(** ** Workflows *)

(** [func(ev *BaseEvent, ctx *BaseContext) *BaseEvent]: a step reads the event,
    may assign the fields of the context and write any map object, and
    returns the next event. *)
Abbreviation StepFunc :=
  (BaseEvent → BaseContext → heap → BaseEvent * BaseContext * heap)%type
  (only parsing).

(** [type BaseWorkflow struct { FirstStep string; Context *BaseContext;
    Steps map[string]func(ev *BaseEvent, ctx *BaseContext) *BaseEvent }] *)
Record BaseWorkflow : Type := mkBaseWorkflow {
  FirstStep : string;
  Context : BaseContext;
  Steps : gmap string StepFunc
}.

(** [func NewBaseWorkflow(firstStep, ctx, steps) *BaseWorkflow] *)
Definition NewBaseWorkflow (firstStep : string) (ctx : BaseContext)
    (steps : gmap string StepFunc) : BaseWorkflow :=
  {| FirstStep := firstStep; Context := ctx; Steps := steps |}.

Definition reserved_keyword_error : error :=
  errors_New "`end` is a reserved keyword, you cannot use it as a name for your steps".

(** The body of [for k := range wf.Steps { if k == "end" { return false, err } }]
    followed by [return true, nil], on the keys in the order the [range]
    statement yields them. *)
Fixpoint Validate_range (keys : list string) : bool * error :=
  match keys with
  | [] => (true, None)
  | k :: rest =>
      if decide (k = "end") then (false, reserved_keyword_error)
      else Validate_range rest
  end.

(** The keys of the step table, in one iteration order.  Go leaves the
    order of [range] over a map unspecified: any permutation may occur. *)
Definition step_names (wf : BaseWorkflow) : list string :=
  (map_to_list (Steps wf)).*1.

(** [func (wf *BaseWorkflow) Validate() (bool, error)] *)
Definition Validate (wf : BaseWorkflow) : bool * error :=
  Validate_range (step_names wf).

(** [fmt.Sprintf("There was an error while executing step %s: the step does not exist", stepName)] *)
Definition missing_step_message (stepName : string) : string :=
  "There was an error while executing step " +:+ stepName
    +:+ ": the step does not exist".

(** [func (wf *BaseWorkflow) TakeStep(stepName string, ev *BaseEvent, ctx *BaseContext) *BaseEvent] *)
Definition TakeStep (wf : BaseWorkflow) (stepName : string) (ev : BaseEvent)
    (ctx : BaseContext) (h : heap) : BaseEvent * BaseContext * heap :=
  match Steps wf !! stepName with
  | None =>
      let data : gmap string string :=
        {[ "output" := missing_step_message stepName ]} in
      (NewBaseEvent "end" data, ctx, h)
  | Some step => step ev ctx h
  end.

(** [func (wf *BaseWorkflow) Output(ev *BaseEvent, ctx *BaseContext) any] *)
Definition Output (wf : BaseWorkflow) (ev : BaseEvent) (ctx : BaseContext) : any :=
  if decide (NextStep ev = "end") then
    let '(output, ok) := Get ev "output" in
    if ok then output else AnyString "No output produced"
  else AnyString "Not an output step".

(** The [for { ... }] loop of [Run], entered with the current [event];
    [obs] is the state of the observers.  [None]: the loop is still
    running when the fuel is spent. *)
Fixpoint Run_loop {Obs : Type} (fuel : nat) (wf : BaseWorkflow) (event : BaseEvent)
    (ctx : BaseContext) (h : heap)
    (onEventStartCallBack onEventEndCallBack : BaseEvent → Obs → Obs)
    (onOutputCallBack : any → Obs → Obs) (obs : Obs)
  : option (BaseContext * heap * Obs) :=
  match fuel with
  | O => None
  | S fuel' =>
      let obs := onEventStartCallBack event obs in
      if decide (NextStep event = "end") then
        let output := Output wf event ctx in
        let obs := onOutputCallBack output obs in
        Some (ctx, h, obs)
      else
        let '(event', ctx', h') := TakeStep wf (NextStep event) event ctx h in
        let obs := onEventEndCallBack event' obs in
        Run_loop fuel' wf event' ctx' h'
          onEventStartCallBack onEventEndCallBack onOutputCallBack obs
  end.

(** [func (wf *BaseWorkflow) Run(inputEvent, context, onEventStartCallBack,
    onEventEndCallBack, onOutputCallBack)] *)
Definition Run {Obs : Type} (fuel : nat) (wf : BaseWorkflow) (inputEvent : BaseEvent)
    (ctx : BaseContext) (h : heap)
    (onEventStartCallBack onEventEndCallBack : BaseEvent → Obs → Obs)
    (onOutputCallBack : any → Obs → Obs) (obs : Obs)
  : option (BaseContext * heap * Obs) :=
  let '(event, ctx', h') := TakeStep wf (FirstStep wf) inputEvent ctx h in
  Run_loop fuel wf event ctx' h'
    onEventStartCallBack onEventEndCallBack onOutputCallBack obs.

(** ** Observing a run *)

(** One callback invocation. *)
Inductive call : Type :=
| OnEventStart (ev : BaseEvent)
| OnEventEnd (ev : BaseEvent)
| OnOutput (output : any).

(** Making one invocation, and a list of them in order. *)
Definition invoke {Obs : Type} (onEventStartCallBack onEventEndCallBack : BaseEvent → Obs → Obs)
    (onOutputCallBack : any → Obs → Obs) (obs : Obs) (c : call) : Obs :=
  match c with
  | OnEventStart ev => onEventStartCallBack ev obs
  | OnEventEnd ev => onEventEndCallBack ev obs
  | OnOutput output => onOutputCallBack output obs
  end.

Definition invoke_all {Obs : Type} (onEventStartCallBack onEventEndCallBack : BaseEvent → Obs → Obs)
    (onOutputCallBack : any → Obs → Obs) (calls : list call) (obs : Obs) : Obs :=
  foldl (invoke onEventStartCallBack onEventEndCallBack onOutputCallBack) obs calls.

(** Callbacks that append their invocation to a log (the callbacks of
    the test suite append to slices in the same way). *)
Definition logStart (ev : BaseEvent) (log : list call) : list call :=
  (log ++ [OnEventStart ev])%list.
Definition logEnd (ev : BaseEvent) (log : list call) : list call :=
  (log ++ [OnEventEnd ev])%list.
Definition logOutput (out : any) (log : list call) : list call :=
  (log ++ [OnOutput out])%list.

(** The arguments with which each callback was invoked, in order. *)
Fixpoint starts_of (calls : list call) : list BaseEvent :=
  match calls with
  | [] => []
  | OnEventStart ev :: rest => ev :: starts_of rest
  | _ :: rest => starts_of rest
  end.

Fixpoint ends_of (calls : list call) : list BaseEvent :=
  match calls with
  | [] => []
  | OnEventEnd ev :: rest => ev :: ends_of rest
  | _ :: rest => ends_of rest
  end.

Fixpoint outputs_of (calls : list call) : list any :=
  match calls with
  | [] => []
  | OnOutput out :: rest => out :: outputs_of rest
  | _ :: rest => outputs_of rest
  end.

(** What a dispatch leaves behind: the event it produced, the fields of
    the context and the map objects. *)
Abbreviation config := (BaseEvent * BaseContext * heap)%type (only parsing).

Definition event_of (s : config) : BaseEvent := s.1.1.
Definition context_of (s : config) : BaseContext := s.1.2.
Definition heap_of (s : config) : heap := s.2.

(** [wf.TakeStep(event.NextStep, event, context)]: the dispatch on the
    label of the current event. *)
Definition dispatch (wf : BaseWorkflow) (s : config) : config :=
  TakeStep wf (NextStep (event_of s)) (event_of s) (context_of s) (heap_of s).

(** [n] successive dispatches from [s]. *)
Fixpoint chain_from (wf : BaseWorkflow) (n : nat) (s : config) : config :=
  match n with
  | O => s
  | S n' => chain_from wf n' (dispatch wf s)
  end.

(** The chain of a run: dispatch number 0 is that of [FirstStep] on the
    input event, dispatch [n+1] is on the label of the event produced by
    dispatch [n]. *)
Definition produced (wf : BaseWorkflow) (inputEvent : BaseEvent)
    (ctx : BaseContext) (h : heap) (n : nat) : config :=
  chain_from wf n (TakeStep wf (FirstStep wf) inputEvent ctx h).

(** The events produced by dispatches [1 .. n] after [s]. *)
Definition later_events (wf : BaseWorkflow) (n : nat) (s : config) : list BaseEvent :=
  (λ i, event_of (chain_from wf i s)) <$> seq 1 n.

(** The callback invocations of the loop entered with [event] when the
    events in [later] follow it and the last of them is terminal. *)
Fixpoint calls_of (wf : BaseWorkflow) (event : BaseEvent) (later : list BaseEvent)
    (ctx : BaseContext) : list call :=
  match later with
  | [] => [OnEventStart event; OnOutput (Output wf event ctx)]
  | next :: later' =>
      OnEventStart event :: OnEventEnd next :: calls_of wf next later' ctx
  end.

(** [Run] returns: some amount of fuel lets the loop reach its [break]. *)
Definition Run_returns {Obs : Type} (wf : BaseWorkflow) (inputEvent : BaseEvent)
    (ctx : BaseContext) (h : heap)
    (onEventStartCallBack onEventEndCallBack : BaseEvent → Obs → Obs)
    (onOutputCallBack : any → Obs → Obs) (obs : Obs) : Prop :=
  ∃ fuel r,
    Run fuel wf inputEvent ctx h
      onEventStartCallBack onEventEndCallBack onOutputCallBack obs = Some r.

(** [Run] never returns: the loop is still running after any number of
    iterations. *)
Definition Run_diverges {Obs : Type} (wf : BaseWorkflow) (inputEvent : BaseEvent)
    (ctx : BaseContext) (h : heap)
    (onEventStartCallBack onEventEndCallBack : BaseEvent → Obs → Obs)
    (onOutputCallBack : any → Obs → Obs) (obs : Obs) : Prop :=
  ∀ fuel,
    Run fuel wf inputEvent ctx h
      onEventStartCallBack onEventEndCallBack onOutputCallBack obs = None.

(** ** Sample steps and workflows *)

Definition no_maps : heap := λ _, ∅.

(** [mockStep] of the test suite:
    [return NewBaseEvent("end", map[string]string{"output": "hello world"})] *)
Definition mockStep : StepFunc :=
  λ ev ctx h, (NewBaseEvent "end" {[ "output" := "hello world" ]}, ctx, h).

Definition mockEvent : BaseEvent := NewBaseEvent "mockEvent" {[ "mock" := "event" ]}.

(** The workflow of [TestWorkflow]. *)
Definition test_workflow : BaseWorkflow :=
  NewBaseWorkflow "firstStep" (NewBaseContext None None) {[ "firstStep" := mockStep ]}.

(** A step that always hands over to ["s2"]. *)
Definition toSecondStep : StepFunc :=
  λ ev ctx h, (NewBaseEvent "s2" ∅, ctx, h).

(** A step that names itself as the next step. *)
Definition spinStep : StepFunc :=
  λ ev ctx h, (NewBaseEvent "spin" ∅, ctx, h).

Definition spin_workflow : BaseWorkflow :=
  NewBaseWorkflow "spin" (NewBaseContext None None) {[ "spin" := spinStep ]}.

(** A step that names itself as the next step until the payload entry
    ["n"] is used up, one character per dispatch. *)
Definition countdownStep : StepFunc :=
  λ ev ctx h,
    match Data ev !! "n" with
    | Some (String _ rest) => (NewBaseEvent "countdown" {[ "n" := rest ]}, ctx, h)
    | _ => (NewBaseEvent "end" {[ "output" := "done" ]}, ctx, h)
    end.

Definition countdown_workflow : BaseWorkflow :=
  NewBaseWorkflow "countdown" (NewBaseContext None None)
    {[ "countdown" := countdownStep ]}.

Fixpoint ticks (n : nat) : string :=
  match n with
  | O => ""
  | S n' => String "x"%char (ticks n')
  end.

Definition countdown_input (n : nat) : BaseEvent :=
  NewBaseEvent "start" {[ "n" := ticks n ]}.

(** A workflow whose first step is not in the table and whose only step
    names a step that is not in the table either. *)
Definition danglingStep : StepFunc :=
  λ ev ctx h, (NewBaseEvent "nowhere" ∅, ctx, h).

Definition dangling_workflow : BaseWorkflow :=
  NewBaseWorkflow "missing" (NewBaseContext None None) {[ "a" := danglingStep ]}.

(** [msg] contains [name] as a substring. *)
Definition mentions (msg name : string) : Prop :=
  ∃ before after, msg = before +:+ name +:+ after.

(** * Events *)

(** C6: for an event with payload [m], [Get] on a key present in [m]
    returns the stored value with [true]; on an absent key it returns the
    zero value of the payload's element type (the empty string, boxed)
    with [false].  [Get] is a total function of the event and the key: it
    has no failure result and the event is not among its results. *)
Theorem Get_lookup (followingStep : string) (m : gmap string string) (k : string) :
  (∀ v, m !! k = Some v → Get (NewBaseEvent followingStep m) k = (AnyString v, true)) ∧
  (m !! k = None → Get (NewBaseEvent followingStep m) k = (AnyString "", false)).
Proof.
  unfold Get; simpl.
  split.
  - intros v Hv. by rewrite Hv.
  - intros Hnone. by rewrite Hnone.
Qed.

Lemma Get_lookup_witness :
  Get (NewBaseEvent "step1" {[ "key" := "hello" ]}) "key" = (AnyString "hello", true) ∧
  Get (NewBaseEvent "step1" {[ "key" := "hello" ]}) "other" = (AnyString "", false).
Proof.
  split.
  - apply (Get_lookup "step1" {[ "key" := "hello" ]} "key"). reflexivity.
  - apply (Get_lookup "step1" {[ "key" := "hello" ]} "other"). reflexivity.
Defined.

(** * Context *)

(** C7: a context built by [NewBaseContext store state] answers [state]
    to [GetState]; after [SetState s2] any context answers [s2], the very
    map variable that was given, so that reading through it shows the
    contents of [s2] and nothing of the previous state. *)
Theorem GetState_exact :
  (∀ store state : mapref, GetState (NewBaseContext store state) = state) ∧
  (∀ (ctx : BaseContext) (s2 : mapref), GetState (SetState ctx s2) = s2) ∧
  (∀ (ctx : BaseContext) (s2 : mapref) (h : heap),
      deref h (GetState (SetState ctx s2)) = deref h s2).
Proof. repeat split. Qed.

Lemma StoreValue_returns (ctx : BaseContext) (l : loc) (key : string) (val : any) (h : heap) :
  Store ctx = Some l →
  StoreValue ctx key val h = Returns (<[l := <[key := val]> (h l)]> h).
Proof. unfold StoreValue. by intros ->. Qed.

Lemma StoreValue_inv (ctx : BaseContext) (key : string) (val : any) (h h' : heap) :
  StoreValue ctx key val h = Returns h' →
  ∃ l, Store ctx = Some l ∧ h' = <[l := <[key := val]> (h l)]> h.
Proof.
  unfold StoreValue. destruct (Store ctx) as [l|]; [|done].
  intros [= <-]. by exists l.
Qed.

(** C8, as stated, fails on a context whose store is the nil map:
    [StoreValue] panics there, so no entry is created. *)
Lemma StoreValue_nil_store :
  StoreValue (NewBaseContext None None) "apiCredit" (AnyInt 200) no_maps
    = Panics "assignment to entry in nil map"
  ∧ ¬ ∃ h', StoreValue (NewBaseContext None None) "apiCredit" (AnyInt 200) no_maps
              = Returns h'
            ∧ GetValue (NewBaseContext None None) "apiCredit" h' = (AnyInt 200, true).
Proof.
  split; [reflexivity|].
  intros (h' & Hret & _). discriminate Hret.
Qed.

(** C8, amended: on a context whose store is a map object (not the nil
    map), [StoreValue k v] returns and afterwards [GetValue k] returns
    [(v, true)], whether or not [k] had an entry before; the other keys
    read as before.  [GetValue] on an absent key, also on the nil store,
    returns [(nil, false)]. *)
Theorem StoreValue_then_GetValue (ctx : BaseContext) (k : string) (v : any) (h : heap) :
  (∀ l, Store ctx = Some l →
     ∃ h', StoreValue ctx k v h = Returns h'
       ∧ GetValue ctx k h' = (v, true)
       ∧ ∀ k', k' ≠ k → GetValue ctx k' h' = GetValue ctx k' h) ∧
  (∀ k', deref h (Store ctx) !! k' = None → GetValue ctx k' h = (AnyNil, false)) ∧
  (Store ctx = None → ∀ k', GetValue ctx k' h = (AnyNil, false)).
Proof.
  split; [|split].
  - intros l Hstore. eexists. split; [by apply StoreValue_returns|].
    unfold GetValue, deref. rewrite Hstore, fn_lookup_insert.
    split.
    + by rewrite lookup_insert_eq.
    + intros k' Hne. by rewrite lookup_insert_ne.
  - intros k' Hnone. unfold GetValue. by rewrite Hnone.
  - intros Hnil k'. unfold GetValue. by rewrite Hnil.
Qed.

Lemma StoreValue_then_GetValue_witness :
  ∃ h', StoreValue (NewBaseContext (Some 1%positive) (Some 2%positive))
          "apiCredit" (AnyInt 200) no_maps = Returns h'
        ∧ GetValue (NewBaseContext (Some 1%positive) (Some 2%positive)) "apiCredit" h'
          = (AnyInt 200, true).
Proof.
  destruct (proj1 (StoreValue_then_GetValue
                     (NewBaseContext (Some 1%positive) (Some 2%positive))
                     "apiCredit" (AnyInt 200) no_maps) 1%positive eq_refl)
    as (h' & Hret & Hget & _).
  exists h'. split; [exact Hret | exact Hget].
Defined.

(** C9, as stated, fails on a context built from one map object for both
    fields: [StoreValue] then writes the map that [GetState] returns. *)
Lemma StoreValue_aliased_state :
  ∃ h', StoreValue (NewBaseContext (Some 1%positive) (Some 1%positive))
          "k" (AnyInt 1) no_maps = Returns h'
        ∧ deref no_maps (GetState (NewBaseContext (Some 1%positive) (Some 1%positive)))
            !! "k" = None
        ∧ deref h' (GetState (NewBaseContext (Some 1%positive) (Some 1%positive)))
            !! "k" = Some (AnyInt 1)
        ∧ deref h' (GetState (NewBaseContext (Some 1%positive) (Some 1%positive)))
          ≠ deref no_maps (GetState (NewBaseContext (Some 1%positive) (Some 1%positive))).
Proof.
  eexists. split; [reflexivity|]. split; [reflexivity|]. split; [reflexivity|].
  intros Heq. apply (f_equal (λ m : gmap string any, m !! "k")) in Heq.
  vm_compute in Heq. discriminate Heq.
Qed.

(** C9, amended: when the state of a context is not the map object that
    is its store, a [StoreValue] that returns leaves the state mapping as
    it was; [SetState] keeps the store variable and writes no map object,
    and the state it installs is the given one alone.  [GetValue] and
    [GetState] only read: the embedding gives them neither a context nor a
    heap among their results. *)
Theorem store_state_frame (ctx : BaseContext) (h : heap) :
  (∀ k v h', State ctx ≠ Store ctx → StoreValue ctx k v h = Returns h' →
     deref h' (State ctx) = deref h (State ctx)) ∧
  (∀ s2 : mapref, Store (SetState ctx s2) = Store ctx
     ∧ deref h (Store (SetState ctx s2)) = deref h (Store ctx)
     ∧ GetState (SetState ctx s2) = s2).
Proof.
  split.
  - intros k v h' Hne (l & Hstore & ->)%StoreValue_inv.
    destruct (State ctx) as [l'|]; [|done].
    simpl. apply fn_lookup_insert_ne. congruence.
  - done.
Qed.

Lemma store_state_frame_witness :
  ∃ h', StoreValue (NewBaseContext (Some 1%positive) (Some 2%positive))
          "k" (AnyInt 1) no_maps = Returns h'
        ∧ deref h' (State (NewBaseContext (Some 1%positive) (Some 2%positive)))
          = deref no_maps (State (NewBaseContext (Some 1%positive) (Some 2%positive))).
Proof.
  eexists. split; [reflexivity|].
  apply (proj1 (store_state_frame
                  (NewBaseContext (Some 1%positive) (Some 2%positive)) no_maps)
           "k" (AnyInt 1)).
  - discriminate.
  - reflexivity.
Defined.

(** * Workflow: validation, dispatch of one step, output *)

Lemma Validate_range_elem (keys : list string) :
  Validate_range keys =
    if decide ("end" ∈ keys) then (false, reserved_keyword_error) else (true, None).
Proof.
  induction keys as [|k rest IH]; cbn [Validate_range].
  - rewrite decide_False; [done | apply not_elem_of_nil].
  - destruct (decide (k = "end")) as [->|Hk].
    + rewrite decide_True; [done | left].
    + rewrite IH. destruct (decide ("end" ∈ rest)) as [Hin|Hnin].
      * rewrite decide_True; [done | by right].
      * rewrite decide_False; [done|].
        intros [Heq|Hin]%elem_of_cons; [by apply Hk | by apply Hnin].
Qed.

Lemma step_names_elem (wf : BaseWorkflow) (k : string) :
  k ∈ step_names wf ↔ is_Some (Steps wf !! k).
Proof.
  unfold step_names. rewrite list_elem_of_fmap. split.
  - intros ([k' step] & -> & Hin). apply elem_of_map_to_list in Hin. by exists step.
  - intros [step Hstep]. exists (k, step). split; [done|].
    by apply elem_of_map_to_list.
Qed.

Lemma Validate_cases (wf : BaseWorkflow) :
  Validate wf =
    if decide (is_Some (Steps wf !! "end")) then (false, reserved_keyword_error)
    else (true, None).
Proof.
  unfold Validate. rewrite Validate_range_elem.
  destruct (decide ("end" ∈ step_names wf)) as [Hin|Hnin].
  - rewrite decide_True; [done | by apply step_names_elem].
  - rewrite decide_False; [done | by rewrite <- step_names_elem].
Qed.

(** C3: [Validate] returns [false] with the (non-nil) reserved-keyword
    error exactly when ["end"] is a key of the step table, and [true] with
    the nil error otherwise, in whatever order [range] yields the keys.
    Nothing else is checked: the result does not depend on [FirstStep] or
    [Context], and a workflow whose first step and whose referenced next
    step are both missing from the table validates. *)
Theorem Validate_reserved_name (wf : BaseWorkflow) :
  (Validate wf = (false, reserved_keyword_error) ↔ is_Some (Steps wf !! "end")) ∧
  (Validate wf = (true, None) ↔ Steps wf !! "end" = None) ∧
  (∃ msg, reserved_keyword_error = Some msg) ∧
  (∀ keys, keys ≡ₚ step_names wf → Validate_range keys = Validate wf) ∧
  (∀ firstStep ctx, Validate (NewBaseWorkflow firstStep ctx (Steps wf)) = Validate wf) ∧
  (Steps dangling_workflow !! FirstStep dangling_workflow = None
   ∧ Steps dangling_workflow !! "a" = Some danglingStep
   ∧ (∀ ev ctx h,
        Steps dangling_workflow !! NextStep (event_of (danglingStep ev ctx h)) = None)
   ∧ Validate dangling_workflow = (true, None)).
Proof.
  rewrite Validate_cases.
  split; [|split; [|split; [|split; [|split]]]].
  - destruct (decide (is_Some (Steps wf !! "end"))) as [Hin|Hnin]; [done|].
    split; [discriminate | done].
  - destruct (decide (is_Some (Steps wf !! "end"))) as [Hin|Hnin].
    + split; [discriminate|]. intros Hnone. rewrite Hnone in Hin. by destruct Hin.
    + split; [|done]. intros _. by apply eq_None_not_Some.
  - by eexists.
  - intros keys Hperm. rewrite Validate_range_elem.
    destruct (decide ("end" ∈ keys)) as [Hin|Hnin].
    + rewrite decide_True; [done|]. apply step_names_elem. by rewrite <- Hperm.
    + rewrite decide_False; [done|]. rewrite <- step_names_elem. by rewrite <- Hperm.
  - intros firstStep ctx. by rewrite Validate_cases.
  - repeat split.
Qed.

Lemma Validate_reserved_name_witness :
  Validate (NewBaseWorkflow "end" (NewBaseContext None None) {[ "end" := mockStep ]})
    = (false, reserved_keyword_error)
  ∧ Validate test_workflow = (true, None).
Proof.
  split.
  - apply (proj1 (Validate_reserved_name
                    (NewBaseWorkflow "end" (NewBaseContext None None)
                       {[ "end" := mockStep ]}))).
    exists mockStep. reflexivity.
  - apply (proj1 (proj2 (Validate_reserved_name test_workflow))).
    reflexivity.
Defined.

(** C2: for a name that is not a key of the step table [TakeStep] returns
    (it has no failure result) a new event whose next-step label is
    ["end"] and whose payload maps ["output"] to a message that contains
    the name, leaving the context and the map objects as they were; for a
    name in the table it returns what the step stored under that name
    returns on the given event and context. *)
Theorem TakeStep_dispatch (wf : BaseWorkflow) (stepName : string) (ev : BaseEvent)
    (ctx : BaseContext) (h : heap) :
  (Steps wf !! stepName = None →
     ∃ ev', TakeStep wf stepName ev ctx h = (ev', ctx, h)
       ∧ NextStep ev' = "end"
       ∧ Data ev' !! "output" = Some (missing_step_message stepName)
       ∧ mentions (missing_step_message stepName) stepName) ∧
  (∀ step, Steps wf !! stepName = Some step →
     TakeStep wf stepName ev ctx h = step ev ctx h).
Proof.
  unfold TakeStep. split.
  - intros ->. eexists. split; [reflexivity|].
    split; [reflexivity|]. split; [reflexivity|].
    by exists "There was an error while executing step ", ": the step does not exist".
  - by intros step ->.
Qed.

Lemma TakeStep_dispatch_witness :
  (∃ ev', TakeStep test_workflow "secondStep" mockEvent (NewBaseContext None None) no_maps
            = (ev', NewBaseContext None None, no_maps)
          ∧ NextStep ev' = "end"
          ∧ Data ev' !! "output"
            = Some "There was an error while executing step secondStep: the step does not exist"
          ∧ mentions (missing_step_message "secondStep") "secondStep") ∧
  TakeStep test_workflow "firstStep" mockEvent (NewBaseContext None None) no_maps
    = mockStep mockEvent (NewBaseContext None None) no_maps.
Proof.
  split.
  - apply (proj1 (TakeStep_dispatch test_workflow "secondStep" mockEvent
                    (NewBaseContext None None) no_maps)).
    reflexivity.
  - apply (proj2 (TakeStep_dispatch test_workflow "firstStep" mockEvent
                    (NewBaseContext None None) no_maps)).
    reflexivity.
Defined.

(** C4: on an event labelled ["end"], [Output] returns the payload's
    entry for ["output"] when there is one and the string
    ["No output produced"] otherwise; on any other event it returns the
    string ["Not an output step"] whatever the payload holds. *)
Theorem Output_cases (wf : BaseWorkflow) (ev : BaseEvent) (ctx : BaseContext) :
  (NextStep ev = "end" →
     (∀ v, Data ev !! "output" = Some v → Output wf ev ctx = AnyString v) ∧
     (Data ev !! "output" = None → Output wf ev ctx = AnyString "No output produced")) ∧
  (NextStep ev ≠ "end" →
     Output wf ev ctx = AnyString "Not an output step"
     ∧ ∀ data, Output wf (NewBaseEvent (NextStep ev) data) ctx = Output wf ev ctx).
Proof.
  unfold Output, Get. split.
  - intros Hend. rewrite decide_True by done. split.
    + intros v Hv. by rewrite Hv.
    + intros Hnone. by rewrite Hnone.
  - intros Hne. rewrite decide_False by done. split; [done|].
    intros data. simpl. by rewrite decide_False.
Qed.

Lemma Output_cases_witness :
  Output test_workflow (NewBaseEvent "end" {[ "output" := "hello world" ]})
    (NewBaseContext None None) = AnyString "hello world"
  ∧ Output test_workflow (NewBaseEvent "end" ∅) (NewBaseContext None None)
    = AnyString "No output produced"
  ∧ Output test_workflow (NewBaseEvent "s2" {[ "output" := "hello world" ]})
      (NewBaseContext None None) = AnyString "Not an output step".
Proof.
  split; [|split].
  - apply (proj1 (Output_cases test_workflow
                    (NewBaseEvent "end" {[ "output" := "hello world" ]})
                    (NewBaseContext None None))); reflexivity.
  - apply (proj1 (Output_cases test_workflow (NewBaseEvent "end" ∅)
                    (NewBaseContext None None))); reflexivity.
  - apply (proj2 (Output_cases test_workflow
                    (NewBaseEvent "s2" {[ "output" := "hello world" ]})
                    (NewBaseContext None None))). discriminate.
Defined.

(** C10: the value of [Output] is the same under any two contexts (and
    under any two workflows): it is the value of an expression in the
    event alone.  The context is not read, and [Output] has no context or
    heap among its results, so it writes neither. *)
Theorem Output_ignores_context (wf1 wf2 : BaseWorkflow) (ev : BaseEvent)
    (c1 c2 : BaseContext) :
  Output wf1 ev c1 = Output wf2 ev c2
  ∧ Output wf1 ev c1 =
      if decide (NextStep ev = "end")
      then default (AnyString "No output produced") (AnyString <$> Data ev !! "output")
      else AnyString "Not an output step".
Proof.
  split; [reflexivity|].
  unfold Output, Get.
  destruct (decide (NextStep ev = "end")) as [Hend|Hne]; [|done].
  by destruct (Data ev !! "output").
Qed.

(** * Workflow: the dispatch loop *)

Section chain.
Variable wf : BaseWorkflow.

Lemma dispatch_eq (e : BaseEvent) (c : BaseContext) (h : heap) :
  dispatch wf (e, c, h) = TakeStep wf (NextStep e) e c h.
Proof. reflexivity. Qed.

Lemma chain_from_S (n : nat) (s : config) :
  chain_from wf (S n) s = dispatch wf (chain_from wf n s).
Proof.
  revert s. induction n as [|n IH]; intros s; [done|].
  change (chain_from wf (S (S n)) s) with (chain_from wf (S n) (dispatch wf s)).
  by rewrite IH.
Qed.

Lemma later_events_S (n : nat) (s : config) :
  later_events wf (S n) s
    = event_of (dispatch wf s) :: later_events wf n (dispatch wf s).
Proof.
  unfold later_events. cbn [seq fmap list_fmap]. f_equal.
  rewrite <- fmap_S_seq, <- list_fmap_compose. done.
Qed.

(** The arguments each callback receives in the invocations [calls_of] lists. *)
Lemma starts_of_calls_of (e : BaseEvent) (later : list BaseEvent) (c : BaseContext) :
  starts_of (calls_of wf e later c) = e :: later.
Proof.
  revert e. induction later as [|next later IH]; intros e; [done|].
  cbn [calls_of starts_of]. by rewrite IH.
Qed.

Lemma ends_of_calls_of (e : BaseEvent) (later : list BaseEvent) (c : BaseContext) :
  ends_of (calls_of wf e later c) = later.
Proof.
  revert e. induction later as [|next later IH]; intros e; [done|].
  cbn [calls_of ends_of]. by rewrite IH.
Qed.

Lemma outputs_of_calls_of (n : nat) (s : config) (c : BaseContext) :
  outputs_of (calls_of wf (event_of s) (later_events wf n s) c)
    = [Output wf (event_of (chain_from wf n s)) c].
Proof.
  revert s. induction n as [|n IH]; intros s; [done|].
  rewrite later_events_S. cbn [calls_of outputs_of chain_from].
  apply IH.
Qed.

(** The invocations end with those of the terminal iteration; every
    [onEnd] comes before them. *)
Lemma calls_of_last (n : nat) (s : config) (c : BaseContext) :
  ∃ before,
    calls_of wf (event_of s) (later_events wf n s) c
      = (before ++ [OnEventStart (event_of (chain_from wf n s));
                    OnOutput (Output wf (event_of (chain_from wf n s)) c)])%list
    ∧ length (ends_of before) = n.
Proof.
  revert s. induction n as [|n IH]; intros s.
  - by exists [].
  - rewrite later_events_S. cbn [calls_of chain_from].
    destruct (IH (dispatch wf s)) as (before & -> & Hlen).
    exists (OnEventStart (event_of s) :: OnEventEnd (event_of (dispatch wf s)) :: before).
    split; [done|]. cbn [ends_of length]. by rewrite Hlen.
Qed.

Section observers.
Context {Obs : Type}.
Variables onStart onEnd : BaseEvent → Obs → Obs.
Variable onOutput : any → Obs → Obs.

(** One iteration of the loop. *)
Lemma Run_loop_S (fuel : nat) (e : BaseEvent) (c : BaseContext) (h : heap) (obs : Obs) :
  Run_loop (S fuel) wf e c h onStart onEnd onOutput obs =
    if decide (NextStep e = "end") then
      Some (c, h, onOutput (Output wf e c) (onStart e obs))
    else
      let '(e1, c1, h1) := TakeStep wf (NextStep e) e c h in
      Run_loop fuel wf e1 c1 h1 onStart onEnd onOutput (onEnd e1 (onStart e obs)).
Proof. reflexivity. Qed.

(** More fuel does not change the result of a loop that has returned. *)
Lemma Run_loop_mono (fuel fuel' : nat) (e : BaseEvent) (c : BaseContext) (h : heap)
    (obs : Obs) r :
  fuel ≤ fuel' →
  Run_loop fuel wf e c h onStart onEnd onOutput obs = Some r →
  Run_loop fuel' wf e c h onStart onEnd onOutput obs = Some r.
Proof.
  revert fuel' e c h obs.
  induction fuel as [|fuel IH]; intros fuel' e c h obs Hle; [done|].
  destruct fuel' as [|fuel']; [lia|].
  rewrite !Run_loop_S. destruct (decide (NextStep e = "end")); [done|].
  destruct (TakeStep wf (NextStep e) e c h) as [[e1 c1] h1].
  apply IH. lia.
Qed.

(** A loop that returns has followed the chain of dispatches up to its
    first terminal event and has made the invocations [calls_of] lists,
    in that order. *)
Lemma Run_loop_sound (fuel : nat) (e : BaseEvent) (c : BaseContext) (h : heap)
    (obs : Obs) (c' : BaseContext) (h' : heap) (obs' : Obs) :
  Run_loop fuel wf e c h onStart onEnd onOutput obs = Some (c', h', obs') →
  ∃ n, n < fuel
    ∧ (∀ i, i < n → NextStep (event_of (chain_from wf i (e, c, h))) ≠ "end")
    ∧ NextStep (event_of (chain_from wf n (e, c, h))) = "end"
    ∧ c' = context_of (chain_from wf n (e, c, h))
    ∧ h' = heap_of (chain_from wf n (e, c, h))
    ∧ obs' = invoke_all onStart onEnd onOutput
               (calls_of wf e (later_events wf n (e, c, h)) c') obs.
Proof.
  revert e c h obs.
  induction fuel as [|fuel IH]; intros e c h obs; [done|].
  rewrite Run_loop_S. destruct (decide (NextStep e = "end")) as [Hend|Hne].
  - intros [= <- <- <-]. exists 0. repeat split; [lia | intros i; lia | done].
  - destruct (TakeStep wf (NextStep e) e c h) as [[e1 c1] h1] eqn:Hstep.
    intros (n & Hlt & Hbefore & Hlast & -> & -> & ->)%IH.
    exists (S n). rewrite later_events_S.
    cbn [chain_from]. rewrite dispatch_eq, Hstep.
    repeat split; [lia | | done].
    intros [|i] Hi; [done|]. cbn [chain_from]. rewrite dispatch_eq, Hstep.
    apply Hbefore. lia.
Qed.

(** Once the chain holds a terminal event, the loop returns. *)
Lemma Run_loop_complete (n : nat) (e : BaseEvent) (c : BaseContext) (h : heap) (obs : Obs) :
  NextStep (event_of (chain_from wf n (e, c, h))) = "end" →
  ∃ r, Run_loop (S n) wf e c h onStart onEnd onOutput obs = Some r.
Proof.
  revert e c h obs. induction n as [|n IH]; intros e c h obs Hend.
  - rewrite Run_loop_S, decide_True by done. by eexists.
  - rewrite Run_loop_S. destruct (decide (NextStep e = "end")); [by eexists|].
    cbn [chain_from] in Hend. rewrite dispatch_eq in Hend.
    destruct (TakeStep wf (NextStep e) e c h) as [[e1 c1] h1].
    by apply IH.
Qed.

(** [Run] returns exactly when its chain of events holds a terminal one. *)
Lemma Run_returns_iff (inputEvent : BaseEvent) (ctx : BaseContext) (h : heap) (obs : Obs) :
  Run_returns wf inputEvent ctx h onStart onEnd onOutput obs
  ↔ ∃ n, NextStep (event_of (produced wf inputEvent ctx h n)) = "end".
Proof.
  unfold Run_returns, Run, produced.
  destruct (TakeStep wf (FirstStep wf) inputEvent ctx h) as [[e0 c0] h0].
  split.
  - intros (fuel & [[c' h'] obs'] & Hrun).
    apply Run_loop_sound in Hrun as (n & _ & _ & Hlast & _). by exists n.
  - intros (n & Hlast). exists (S n). by apply Run_loop_complete.
Qed.
End observers.
End chain.

(** The log kept by the appending callbacks is the list of the
    invocations made, after what it held before. *)
Lemma invoke_all_log (calls log : list call) :
  invoke_all logStart logEnd logOutput calls log
    = (log ++ calls)%list.
Proof.
  revert log. induction calls as [|c calls IH]; intros log.
  - by rewrite app_nil_r.
  - unfold invoke_all in *. cbn [foldl]. rewrite IH.
    destruct c; unfold invoke, logStart, logEnd, logOutput;
      by rewrite <- app_assoc.
Qed.

(** C1, as stated, fails where it says that [onEnd] is never invoked for
    the final terminal event: in the chain ["s1" -> "s2" -> "end"] the one
    invocation of [onEnd] receives the event returned by ["s2"], which is
    the terminal event, before [onStart] receives it. *)
Lemma Run_onEnd_terminal_event :
  Run 2 (NewBaseWorkflow "s1" (NewBaseContext None None)
           {[ "s1" := toSecondStep; "s2" := mockStep ]})
    mockEvent (NewBaseContext None None) no_maps logStart logEnd logOutput []
  = Some (NewBaseContext None None, no_maps,
          [OnEventStart (NewBaseEvent "s2" ∅);
           OnEventEnd (NewBaseEvent "end" {[ "output" := "hello world" ]});
           OnEventStart (NewBaseEvent "end" {[ "output" := "hello world" ]});
           OnOutput (AnyString "hello world")])
  ∧ NextStep (NewBaseEvent "end" {[ "output" := "hello world" ]}) = "end"
  ∧ ends_of
      [OnEventStart (NewBaseEvent "s2" ∅);
       OnEventEnd (NewBaseEvent "end" {[ "output" := "hello world" ]});
       OnEventStart (NewBaseEvent "end" {[ "output" := "hello world" ]});
       OnOutput (AnyString "hello world")]
    = [NewBaseEvent "end" {[ "output" := "hello world" ]}].
Proof. split; [|split]; reflexivity. Qed.

(** C1, amended: a run that returns has first dispatched [FirstStep] on
    the input event (dispatch 0) and then followed the chain of dispatches
    up to the first terminal event, produced by some dispatch [n].
    Whatever the callbacks are, they were invoked as follows, in the order
    [calls] lists: [onStart] once with each of the produced events
    [0 .. n], the terminal one included; [onEnd] once for each of the [n]
    dispatches made inside the loop, with the event that dispatch produced
    (events [1 .. n], so the last of them is the terminal event);
    [onOutput] once, with [Output] of the terminal event.  The invocations
    end with [onStart] and [onOutput] on the terminal event: the iteration
    that handles it invokes no [onEnd].  A workflow whose single step
    ["s1"] always returns the terminal event with payload
    [{"output": "hello world"}] invokes [onStart] once, [onEnd] never and
    [onOutput] once with ["hello world"]; a chain ["s1" -> "s2" -> "end"]
    invokes [onStart] twice and [onEnd] once. *)
Theorem Run_callbacks :
  (∀ (Obs : Type) (onStart onEnd : BaseEvent → Obs → Obs) (onOutput : any → Obs → Obs)
     wf inputEvent ctx h fuel obs ctx' h' obs',
     Run fuel wf inputEvent ctx h onStart onEnd onOutput obs = Some (ctx', h', obs') →
     ∃ n,
       let ev i := event_of (produced wf inputEvent ctx h i) in
       let calls := calls_of wf (ev 0) (ev <$> seq 1 n) ctx' in
       produced wf inputEvent ctx h 0 = TakeStep wf (FirstStep wf) inputEvent ctx h
       ∧ (∀ i, i < n → NextStep (ev i) ≠ "end")
       ∧ NextStep (ev n) = "end"
       ∧ obs' = invoke_all onStart onEnd onOutput calls obs
       ∧ starts_of calls = ev <$> seq 0 (S n)
       ∧ ends_of calls = ev <$> seq 1 n
       ∧ outputs_of calls = [Output wf (ev n) ctx']
       ∧ ∃ before,
           calls = (before ++ [OnEventStart (ev n); OnOutput (Output wf (ev n) ctx')])%list
           ∧ length (ends_of before) = n) ∧
  (∀ (s1 : StepFunc) c0 inputEvent ctx h fuel,
     (∀ ev c hh, event_of (s1 ev c hh) = NewBaseEvent "end" {[ "output" := "hello world" ]}) →
     ∃ calls ctx' h',
       starts_of calls = [NewBaseEvent "end" {[ "output" := "hello world" ]}]
       ∧ ends_of calls = []
       ∧ outputs_of calls = [AnyString "hello world"]
       ∧ ∀ (Obs : Type) (onStart onEnd : BaseEvent → Obs → Obs)
           (onOutput : any → Obs → Obs) (obs : Obs),
           Run (S fuel) (NewBaseWorkflow "s1" c0 {[ "s1" := s1 ]}) inputEvent ctx h
             onStart onEnd onOutput obs
           = Some (ctx', h', invoke_all onStart onEnd onOutput calls obs)) ∧
  (∀ (s1 s2 : StepFunc) c0 inputEvent ctx h fuel,
     (∀ ev c hh, NextStep (event_of (s1 ev c hh)) = "s2") →
     (∀ ev c hh, NextStep (event_of (s2 ev c hh)) = "end") →
     ∃ e1 e2 ctx' h',
       let wf := NewBaseWorkflow "s1" c0 {[ "s1" := s1; "s2" := s2 ]} in
       let calls := [OnEventStart e1; OnEventEnd e2; OnEventStart e2;
                     OnOutput (Output wf e2 ctx')] in
       NextStep e1 = "s2"
       ∧ NextStep e2 = "end"
       ∧ length (starts_of calls) = 2
       ∧ length (ends_of calls) = 1
       ∧ length (outputs_of calls) = 1
       ∧ ∀ (Obs : Type) (onStart onEnd : BaseEvent → Obs → Obs)
           (onOutput : any → Obs → Obs) (obs : Obs),
           Run (S (S fuel)) wf inputEvent ctx h onStart onEnd onOutput obs
           = Some (ctx', h', invoke_all onStart onEnd onOutput calls obs)).
Proof.
  split; [|split].
  - intros Obs onStart onEnd onOutput wf inputEvent ctx h fuel obs ctx' h' obs'.
    unfold Run, produced.
    destruct (TakeStep wf (FirstStep wf) inputEvent ctx h) as [[e0 c0] h0].
    intros (n & _ & Hbefore & Hlast & _ & _ & ->)%Run_loop_sound.
    exists n. cbn zeta.
    change ((λ i, event_of (chain_from wf i (e0, c0, h0))) <$> seq 1 n)
      with (later_events wf n (e0, c0, h0)).
    change (event_of (chain_from wf 0 (e0, c0, h0))) with e0.
    split; [done|]. split; [done|]. split; [done|]. split; [done|].
    split; [by rewrite starts_of_calls_of|].
    split; [by rewrite ends_of_calls_of|].
    split; [exact (outputs_of_calls_of wf n (e0, c0, h0) _)|].
    exact (calls_of_last wf n (e0, c0, h0) _).
  - intros s1 c0 inputEvent ctx h fuel Hs1.
    specialize (Hs1 inputEvent ctx h).
    destruct (s1 inputEvent ctx h) as [[e1 c1] h1] eqn:Hstep. cbn in Hs1. subst e1.
    exists [OnEventStart (NewBaseEvent "end" {[ "output" := "hello world" ]});
            OnOutput (AnyString "hello world")], c1, h1.
    split; [done|]. split; [done|]. split; [done|].
    intros Obs onStart onEnd onOutput obs. unfold Run, TakeStep.
    cbn [FirstStep Steps NewBaseWorkflow]. rewrite lookup_singleton_eq, Hstep.
    by rewrite Run_loop_S, decide_True.
  - intros s1 s2 c0 inputEvent ctx h fuel Hs1 Hs2.
    specialize (Hs1 inputEvent ctx h).
    destruct (s1 inputEvent ctx h) as [[e1 c1] h1] eqn:Hstep1. cbn in Hs1.
    specialize (Hs2 e1 c1 h1).
    destruct (s2 e1 c1 h1) as [[e2 c2] h2] eqn:Hstep2. cbn in Hs2.
    exists e1, e2, c2, h2. cbn zeta.
    split; [done|]. split; [done|]. split; [done|]. split; [done|]. split; [done|].
    intros Obs onStart onEnd onOutput obs. unfold Run, TakeStep.
    cbn [FirstStep Steps NewBaseWorkflow]. rewrite lookup_insert_eq, Hstep1.
    rewrite Run_loop_S, decide_False by (rewrite Hs1; done).
    unfold TakeStep. cbn [Steps NewBaseWorkflow]. rewrite Hs1.
    rewrite lookup_insert_ne, lookup_singleton_eq, Hstep2 by done.
    by rewrite Run_loop_S, decide_True.
Qed.

Lemma Run_callbacks_witness :
  (∃ calls ctx' h',
     Run 1 (NewBaseWorkflow "s1" (NewBaseContext None None) {[ "s1" := mockStep ]})
       mockEvent (NewBaseContext None None) no_maps
       logStart logEnd logOutput []
     = Some (ctx', h', calls)
     ∧ starts_of calls = [NewBaseEvent "end" {[ "output" := "hello world" ]}]
     ∧ ends_of calls = []
     ∧ outputs_of calls = [AnyString "hello world"]) ∧
  (∃ calls ctx' h',
     Run 2 (NewBaseWorkflow "s1" (NewBaseContext None None)
              {[ "s1" := toSecondStep; "s2" := mockStep ]})
       mockEvent (NewBaseContext None None) no_maps
       logStart logEnd logOutput []
     = Some (ctx', h', calls)
     ∧ length (starts_of calls) = 2
     ∧ length (ends_of calls) = 1
     ∧ length (outputs_of calls) = 1) ∧
  (∃ n, NextStep (event_of (produced test_workflow mockEvent
                              (NewBaseContext None None) no_maps n)) = "end").
Proof.
  destruct Run_callbacks as (Hgeneral & Hsingle & Hchain).
  split; [|split].
  - destruct (Hsingle mockStep (NewBaseContext None None) mockEvent
                (NewBaseContext None None) no_maps 0)
      as (calls & ctx' & h' & Hstart & Hend & Hout & Hrun).
    + intros ev c hh. reflexivity.
    + exists calls, ctx', h'.
      rewrite (Hrun (list call) logStart logEnd logOutput []).
      by rewrite invoke_all_log.
  - destruct (Hchain toSecondStep mockStep (NewBaseContext None None) mockEvent
                (NewBaseContext None None) no_maps 0)
      as (e1 & e2 & ctx' & h' & _ & _ & Hstart & Hend & Hout & Hrun).
    + intros ev c hh. reflexivity.
    + intros ev c hh. reflexivity.
    + eexists _, ctx', h'.
      rewrite (Hrun (list call) logStart logEnd logOutput []).
      rewrite invoke_all_log. split; [reflexivity|].
      split; [exact Hstart|]. split; [exact Hend | exact Hout].
  - destruct (Hgeneral (list call) logStart logEnd logOutput
                test_workflow mockEvent (NewBaseContext None None) no_maps 1 []
                (NewBaseContext None None) no_maps
                [OnEventStart (NewBaseEvent "end" {[ "output" := "hello world" ]});
                 OnOutput (AnyString "hello world")] eq_refl)
      as (n & _ & _ & Hlast & _).
    exists n. exact Hlast.
Defined.

Section loops_of_samples.
Context {Obs : Type}.
Variables onStart onEnd : BaseEvent → Obs → Obs.
Variable onOutput : any → Obs → Obs.

(** The self-naming step keeps the loop running for any fuel. *)
Lemma spin_loop (fuel : nat) (c : BaseContext) (h : heap) (obs : Obs) :
  Run_loop fuel spin_workflow (NewBaseEvent "spin" ∅) c h onStart onEnd onOutput obs
    = None.
Proof.
  revert obs. induction fuel as [|fuel IH]; intros obs; [done|].
  rewrite Run_loop_S, decide_False by done.
  change (TakeStep spin_workflow (NextStep (NewBaseEvent "spin" ∅))
            (NewBaseEvent "spin" ∅) c h)
    with (NewBaseEvent "spin" ∅, c, h).
  cbv beta iota. apply IH.
Qed.

Lemma countdown_TakeStep (ev : BaseEvent) (c : BaseContext) (h : heap) :
  TakeStep countdown_workflow "countdown" ev c h = countdownStep ev c h.
Proof. reflexivity. Qed.

Lemma countdownStep_tick (followingStep : string) (n : nat) (c : BaseContext) (h : heap) :
  countdownStep (NewBaseEvent followingStep {[ "n" := ticks (S n) ]}) c h
    = (NewBaseEvent "countdown" {[ "n" := ticks n ]}, c, h).
Proof.
  unfold countdownStep. cbn [Data NewBaseEvent]. by rewrite lookup_singleton_eq.
Qed.

Lemma countdownStep_done (followingStep : string) (c : BaseContext) (h : heap) :
  countdownStep (NewBaseEvent followingStep {[ "n" := ticks 0 ]}) c h
    = (NewBaseEvent "end" {[ "output" := "done" ]}, c, h).
Proof.
  unfold countdownStep. cbn [Data NewBaseEvent]. by rewrite lookup_singleton_eq.
Qed.

(** With [n] characters left the countdown loop needs [n + 2] iterations. *)
Lemma countdown_loop_busy (n fuel : nat) (c : BaseContext) (h : heap) (obs : Obs) :
  fuel ≤ S n →
  Run_loop fuel countdown_workflow (NewBaseEvent "countdown" {[ "n" := ticks n ]}) c h
    onStart onEnd onOutput obs = None.
Proof.
  revert fuel obs. induction n as [|n IH]; intros [|fuel] obs Hle; try done.
  - rewrite Run_loop_S, decide_False by done.
    cbn [NextStep NewBaseEvent]. rewrite countdown_TakeStep, countdownStep_done.
    cbv beta iota. assert (fuel = 0) as -> by lia. done.
  - rewrite Run_loop_S, decide_False by done.
    cbn [NextStep NewBaseEvent]. rewrite countdown_TakeStep, countdownStep_tick.
    cbv beta iota. apply IH. lia.
Qed.

Lemma countdown_loop_returns (n : nat) (c : BaseContext) (h : heap) (obs : Obs) :
  ∃ r, Run_loop (S (S n)) countdown_workflow
         (NewBaseEvent "countdown" {[ "n" := ticks n ]}) c h
         onStart onEnd onOutput obs = Some r.
Proof.
  revert obs. induction n as [|n IH]; intros obs.
  - by eexists.
  - rewrite Run_loop_S, decide_False by done.
    cbn [NextStep NewBaseEvent]. rewrite countdown_TakeStep, countdownStep_tick.
    cbv beta iota. apply IH.
Qed.
End loops_of_samples.

(** C5: whatever the callbacks, [Run] returns exactly when the chain of
    events produced by the successive dispatches holds an event labelled
    ["end"], however far along the chain; it never returns exactly when no
    produced event is labelled ["end"].  The workflow whose step ["spin"]
    always names itself never returns, on any input.  There is no cap on
    the number of iterations: for every [N] the countdown workflow is
    still looping when [N] iterations are spent and returns with one
    more. *)
Theorem Run_returns_iff_chain_ends (Obs : Type) (onStart onEnd : BaseEvent → Obs → Obs)
    (onOutput : any → Obs → Obs) (obs : Obs) :
  (∀ wf inputEvent ctx h,
     (Run_returns wf inputEvent ctx h onStart onEnd onOutput obs
        ↔ ∃ n, NextStep (event_of (produced wf inputEvent ctx h n)) = "end")
     ∧ (Run_diverges wf inputEvent ctx h onStart onEnd onOutput obs
        ↔ ∀ n, NextStep (event_of (produced wf inputEvent ctx h n)) ≠ "end")) ∧
  (Steps spin_workflow !! "spin" = Some spinStep
   ∧ (∀ ev c hh, NextStep (event_of (spinStep ev c hh)) = "spin")
   ∧ ∀ inputEvent ctx h,
       Run_diverges spin_workflow inputEvent ctx h onStart onEnd onOutput obs) ∧
  (∀ N ctx h,
     Run N countdown_workflow (countdown_input N) ctx h onStart onEnd onOutput obs = None
     ∧ ∃ r, Run (S N) countdown_workflow (countdown_input N) ctx h
              onStart onEnd onOutput obs = Some r).
Proof.
  split; [|split].
  - intros wf inputEvent ctx h. split; [apply Run_returns_iff|].
    unfold Run_diverges. split.
    + intros Hdiv n Hlast.
      destruct (proj2 (Run_returns_iff wf onStart onEnd onOutput inputEvent ctx h obs))
        as (fuel & r & Hrun); [by exists n|].
      by rewrite Hdiv in Hrun.
    + intros Hnever fuel.
      destruct (Run fuel wf inputEvent ctx h onStart onEnd onOutput obs) as [r|] eqn:Hrun;
        [|done].
      destruct (proj1 (Run_returns_iff wf onStart onEnd onOutput inputEvent ctx h obs))
        as (n & Hlast); [by exists fuel, r|].
      by destruct (Hnever n).
  - split; [done|]. split; [done|].
    intros inputEvent ctx h fuel. apply spin_loop.
  - intros N ctx h. unfold Run.
    change (FirstStep countdown_workflow) with "countdown".
    rewrite countdown_TakeStep. unfold countdown_input.
    destruct N as [|N].
    + rewrite countdownStep_done. split; [done | by eexists].
    + rewrite countdownStep_tick. split.
      * by apply countdown_loop_busy.
      * apply countdown_loop_returns.
Qed.

Lemma Run_returns_iff_chain_ends_witness :
  Run_returns test_workflow mockEvent (NewBaseContext None None) no_maps
    logStart logEnd logOutput []
  ∧ ∀ n, NextStep (event_of (produced spin_workflow mockEvent
                               (NewBaseContext None None) no_maps n)) ≠ "end".
Proof.
  destruct (Run_returns_iff_chain_ends (list call)
              logStart logEnd logOutput [])
    as (Hiff & (_ & _ & Hspin) & _).
  split.
  - apply (proj1 (Hiff test_workflow mockEvent (NewBaseContext None None) no_maps)).
    exists 0. reflexivity.
  - apply (proj2 (Hiff spin_workflow mockEvent (NewBaseContext None None) no_maps)).
    apply Hspin.
Defined.

(** * Further properties of the context *)

(** X1: on a context whose store is a map object, two successive
    [StoreValue] on the same key both return, [GetValue] then answers the
    second value, and every map object is as if only the second write had
    been made: the first leaves no trace. *)
Theorem StoreValue_overwrite (ctx : BaseContext) (l : loc) (k : string) (v1 v2 : any)
    (h : heap) :
  Store ctx = Some l →
  ∃ h1 h2 h_once,
    StoreValue ctx k v1 h = Returns h1
    ∧ StoreValue ctx k v2 h1 = Returns h2
    ∧ StoreValue ctx k v2 h = Returns h_once
    ∧ GetValue ctx k h2 = (v2, true)
    ∧ ∀ m : mapref, deref h2 m = deref h_once m.
Proof.
  intros Hstore. eexists _, _, _.
  split; [by apply StoreValue_returns|].
  split; [by apply StoreValue_returns|].
  split; [by apply StoreValue_returns|].
  split.
  - unfold GetValue, deref. rewrite Hstore, !fn_lookup_insert.
    by rewrite lookup_insert_eq.
  - intros [l'|]; [|done]. cbn [deref].
    destruct (decide (l = l')) as [<-|Hne].
    + rewrite !fn_lookup_insert. apply insert_insert_eq.
    + by rewrite !fn_lookup_insert_ne.
Qed.

Lemma StoreValue_overwrite_witness :
  ∃ h1 h2,
    StoreValue (NewBaseContext (Some 1%positive) None) "user" (AnyString "John") no_maps
      = Returns h1
    ∧ StoreValue (NewBaseContext (Some 1%positive) None) "user" (AnyString "Johanna") h1
      = Returns h2
    ∧ GetValue (NewBaseContext (Some 1%positive) None) "user" h2
      = (AnyString "Johanna", true).
Proof.
  destruct (StoreValue_overwrite (NewBaseContext (Some 1%positive) None) 1%positive
              "user" (AnyString "John") (AnyString "Johanna") no_maps eq_refl)
    as (h1 & h2 & _ & Hfirst & Hsecond & _ & Hget & _).
  exists h1, h2. split; [exact Hfirst|]. split; [exact Hsecond | exact Hget].
Defined.

(** X2: writes to two different keys commute: whichever [StoreValue] comes
    first, both return, both keys then read their value with [true], and
    every map object ends up the same. *)
Theorem StoreValue_commute (ctx : BaseContext) (l : loc) (k1 k2 : string) (v1 v2 : any)
    (h : heap) :
  Store ctx = Some l → k1 ≠ k2 →
  ∃ h1 h12 h2 h21,
    StoreValue ctx k1 v1 h = Returns h1 ∧ StoreValue ctx k2 v2 h1 = Returns h12
    ∧ StoreValue ctx k2 v2 h = Returns h2 ∧ StoreValue ctx k1 v1 h2 = Returns h21
    ∧ GetValue ctx k1 h12 = (v1, true) ∧ GetValue ctx k2 h12 = (v2, true)
    ∧ ∀ m : mapref, deref h12 m = deref h21 m.
Proof.
  intros Hstore Hne. eexists _, _, _, _.
  split; [by apply StoreValue_returns|]. split; [by apply StoreValue_returns|].
  split; [by apply StoreValue_returns|]. split; [by apply StoreValue_returns|].
  split; [|split].
  - unfold GetValue, deref. rewrite Hstore, !fn_lookup_insert.
    by rewrite lookup_insert_ne, lookup_insert_eq.
  - unfold GetValue, deref. rewrite Hstore, !fn_lookup_insert.
    by rewrite lookup_insert_eq.
  - intros [l'|]; [|done]. cbn [deref].
    destruct (decide (l = l')) as [<-|Hl].
    + rewrite !fn_lookup_insert. by apply insert_insert_ne.
    + by rewrite !fn_lookup_insert_ne.
Qed.

Lemma StoreValue_commute_witness :
  ∃ h12 h21,
    (∃ h1, StoreValue (NewBaseContext (Some 1%positive) None) "a" (AnyInt 1) no_maps
             = Returns h1
           ∧ StoreValue (NewBaseContext (Some 1%positive) None) "b" (AnyInt 2) h1
             = Returns h12)
    ∧ (∃ h2, StoreValue (NewBaseContext (Some 1%positive) None) "b" (AnyInt 2) no_maps
               = Returns h2
             ∧ StoreValue (NewBaseContext (Some 1%positive) None) "a" (AnyInt 1) h2
               = Returns h21)
    ∧ ∀ m : mapref, deref h12 m = deref h21 m.
Proof.
  destruct (StoreValue_commute (NewBaseContext (Some 1%positive) None) 1%positive
              "a" "b" (AnyInt 1) (AnyInt 2) no_maps eq_refl)
    as (h1 & h12 & h2 & h21 & H1 & H12 & H2 & H21 & _ & _ & Heq).
  - discriminate.
  - exists h12, h21. split; [by exists h1|]. split; [by exists h2 | exact Heq].
Defined.

(** X3: a [StoreValue] that returns writes exactly one map object, the
    one behind [ctx.Store], and only at the given key.  The write is seen
    through every map variable that denotes this object: through another
    context that shares the store, and through [GetState] when the state
    is the same object; every other map variable reads as before. *)
Theorem StoreValue_writes_store_object (ctx : BaseContext) (k : string) (v : any)
    (h h' : heap) :
  StoreValue ctx k v h = Returns h' →
  (∀ m : mapref, m = Store ctx → deref h' m = <[k := v]> (deref h m))
  ∧ (∀ m : mapref, m ≠ Store ctx → deref h' m = deref h m)
  ∧ (∀ ctx2, Store ctx2 = Store ctx → GetValue ctx2 k h' = (v, true))
  ∧ (State ctx = Store ctx → deref h' (GetState ctx) !! k = Some v).
Proof.
  intros (l & Hstore & ->)%StoreValue_inv.
  assert (∀ m : mapref, m = Store ctx →
            deref (<[l := <[k := v]> (h l)]> h) m = <[k := v]> (deref h m)) as Hsame.
  { intros m ->. rewrite Hstore. cbn [deref]. by rewrite fn_lookup_insert. }
  split; [exact Hsame|]. split; [|split].
  - intros [l'|] Hne; [|done]. cbn [deref].
    apply fn_lookup_insert_ne. congruence.
  - intros ctx2 Hshared. unfold GetValue.
    by rewrite (Hsame _ Hshared), lookup_insert_eq.
  - intros Halias. unfold GetState.
    by rewrite (Hsame _ Halias), lookup_insert_eq.
Qed.

Lemma StoreValue_writes_store_object_witness :
  ∃ h', StoreValue (NewBaseContext (Some 1%positive) (Some 2%positive))
          "k" (AnyInt 1) no_maps = Returns h'
        ∧ GetValue (NewBaseContext (Some 1%positive) None) "k" h' = (AnyInt 1, true)
        ∧ deref h' (Some 2%positive) = deref no_maps (Some 2%positive).
Proof.
  eexists. split; [reflexivity|].
  destruct (StoreValue_writes_store_object
              (NewBaseContext (Some 1%positive) (Some 2%positive)) "k" (AnyInt 1)
              no_maps _ eq_refl) as (_ & Hframe & Hshared & _).
  split.
  - apply Hshared. reflexivity.
  - apply Hframe. discriminate.
Defined.

(** * Further properties of events, validation and single steps *)

(** X4: the value [Get] returns is always a boxed string, never nil, so a
    type assertion to [string] succeeds also for a missing key; the flag is
    [true] exactly when the key is in the payload.  A missing key and a key
    stored with the empty string give the same value: only the flag tells
    them apart. *)
Theorem Get_value_is_string (ev : BaseEvent) (k : string) :
  (∃ s, Get ev k = (AnyString s, bool_decide (is_Some (Data ev !! k)))) ∧
  (∀ followingStep (m : gmap string string),
     (Get (NewBaseEvent followingStep (<[k := ""]> m)) k).1
       = (Get (NewBaseEvent followingStep (delete k m)) k).1
     ∧ (Get (NewBaseEvent followingStep (<[k := ""]> m)) k).2 = true
     ∧ (Get (NewBaseEvent followingStep (delete k m)) k).2 = false).
Proof.
  split.
  - unfold Get. destruct (Data ev !! k) as [v|] eqn:Hk.
    + exists v. by rewrite bool_decide_eq_true_2.
    + exists "". rewrite bool_decide_eq_false_2; [done|]. by intros [? ?].
  - intros followingStep m. unfold Get. cbn [Data NewBaseEvent].
    by rewrite lookup_insert_eq, lookup_delete_eq.
Qed.

Lemma string_length_app (s1 s2 : string) :
  String.length (s1 +:+ s2) = String.length s1 + String.length s2.
Proof.
  induction s1 as [|a s1 IH]; [done|].
  change (String a s1 +:+ s2) with (String a (s1 +:+ s2)).
  cbn [String.length]. by rewrite IH.
Qed.

Lemma string_app_inj_r (s1 s2 t : string) : s1 +:+ t = s2 +:+ t → s1 = s2.
Proof.
  revert s2. induction s1 as [|a s1 IH]; intros [|b s2] Heq; [done| | |].
  - apply (f_equal String.length) in Heq.
    change ("" +:+ t) with t in Heq.
    rewrite string_length_app in Heq. cbn [String.length] in Heq. lia.
  - apply (f_equal String.length) in Heq.
    change ("" +:+ t) with t in Heq.
    rewrite string_length_app in Heq. cbn [String.length] in Heq. lia.
  - change (String a (s1 +:+ t) = String b (s2 +:+ t)) in Heq.
    injection Heq as -> Heq. f_equal. by apply IH.
Qed.

Lemma missing_step_message_inj (a b : string) :
  missing_step_message a = missing_step_message b → a = b.
Proof.
  unfold missing_step_message. intros Heq.
  apply (inj (String.app _)) in Heq. by apply string_app_inj_r in Heq.
Qed.

Lemma TakeStep_missing (wf : BaseWorkflow) (stepName : string) (ev : BaseEvent)
    (ctx : BaseContext) (h : heap) :
  Steps wf !! stepName = None →
  TakeStep wf stepName ev ctx h
    = (NewBaseEvent "end" {[ "output" := missing_step_message stepName ]}, ctx, h).
Proof. unfold TakeStep. by intros ->. Qed.

(** X5: the event synthesized for a missing step identifies the step:
    dispatching two names that are both absent from the table yields the
    same event only if the names are the same. *)
Theorem TakeStep_missing_identifies_step (wf : BaseWorkflow) (a b : string)
    (ev1 ev2 : BaseEvent) (c1 c2 : BaseContext) (h1 h2 : heap) :
  Steps wf !! a = None → Steps wf !! b = None →
  event_of (TakeStep wf a ev1 c1 h1) = event_of (TakeStep wf b ev2 c2 h2) →
  a = b.
Proof.
  intros Ha Hb. rewrite !TakeStep_missing by done. cbn.
  intros Heq. apply (f_equal (λ e, Data e !! "output")) in Heq.
  cbn [Data NewBaseEvent] in Heq. rewrite !lookup_singleton_eq in Heq.
  apply missing_step_message_inj. congruence.
Qed.

Lemma TakeStep_missing_identifies_step_witness :
  event_of (TakeStep test_workflow "s2" mockEvent (NewBaseContext None None) no_maps)
    = event_of (TakeStep test_workflow "s2" (NewBaseEvent "other" ∅)
                  (NewBaseContext (Some 1%positive) None) no_maps)
  ∧ "s2" = "s2".
Proof.
  split; [reflexivity|].
  apply (TakeStep_missing_identifies_step test_workflow "s2" "s2" mockEvent
           (NewBaseEvent "other" ∅) (NewBaseContext None None)
           (NewBaseContext (Some 1%positive) None) no_maps no_maps);
    reflexivity.
Defined.

(** X6: how [Validate] follows edits of the step table: the empty table
    validates; adding a step under ["end"] makes validation fail and adding
    one under any other name does not change the verdict; removing ["end"]
    makes the table validate and removing any other name does not change
    the verdict. *)
Theorem Validate_table_edits (firstStep : string) (ctx : BaseContext)
    (steps : gmap string StepFunc) (name : string) (step : StepFunc) :
  Validate (NewBaseWorkflow firstStep ctx ∅) = (true, None)
  ∧ Validate (NewBaseWorkflow firstStep ctx (<[ "end" := step ]> steps))
    = (false, reserved_keyword_error)
  ∧ Validate (NewBaseWorkflow firstStep ctx (delete "end" steps)) = (true, None)
  ∧ (name ≠ "end" →
       Validate (NewBaseWorkflow firstStep ctx (<[ name := step ]> steps))
         = Validate (NewBaseWorkflow firstStep ctx steps)
       ∧ Validate (NewBaseWorkflow firstStep ctx (delete name steps))
         = Validate (NewBaseWorkflow firstStep ctx steps)).
Proof.
  rewrite !Validate_cases. cbn [Steps NewBaseWorkflow].
  rewrite lookup_empty, lookup_insert_eq, lookup_delete_eq.
  split; [by rewrite decide_False by (by intros [? ?])|].
  split; [by rewrite decide_True by (by eexists)|].
  split; [by rewrite decide_False by (by intros [? ?])|].
  intros Hne. by rewrite lookup_insert_ne, lookup_delete_ne.
Qed.

Lemma Validate_table_edits_witness :
  Validate (NewBaseWorkflow "firstStep" (NewBaseContext None None)
              (<[ "secondStep" := spinStep ]> {[ "firstStep" := mockStep ]}))
    = Validate (NewBaseWorkflow "firstStep" (NewBaseContext None None)
                  {[ "firstStep" := mockStep ]}).
Proof.
  destruct (Validate_table_edits "firstStep" (NewBaseContext None None)
              {[ "firstStep" := mockStep ]} "secondStep" spinStep)
    as (_ & _ & _ & Hother).
  destruct Hother as [Hinsert _]; [discriminate|].
  exact Hinsert.
Defined.

(** X7: what [TakeStep] returns, read back by [Output]: for a missing step
    [Output] yields the message that names it; for a step in the table that
    returns a terminal event with an ["output"] entry it yields that
    entry. *)
Theorem Output_of_TakeStep (wf : BaseWorkflow) (stepName : string) (ev : BaseEvent)
    (ctx ctx2 : BaseContext) (h : heap) :
  (Steps wf !! stepName = None →
     Output wf (event_of (TakeStep wf stepName ev ctx h)) ctx2
       = AnyString (missing_step_message stepName)) ∧
  (∀ step v, Steps wf !! stepName = Some step →
     NextStep (event_of (step ev ctx h)) = "end" →
     Data (event_of (step ev ctx h)) !! "output" = Some v →
     Output wf (event_of (TakeStep wf stepName ev ctx h)) ctx2 = AnyString v).
Proof.
  split.
  - intros Hnone. rewrite TakeStep_missing by done.
    unfold Output, Get. cbn. by rewrite lookup_singleton_eq.
  - intros step v Hstep Hend Hout. unfold TakeStep. rewrite Hstep.
    unfold Output, Get. by rewrite decide_True, Hout.
Qed.

Lemma Output_of_TakeStep_witness :
  Output test_workflow
    (event_of (TakeStep test_workflow "s2" mockEvent (NewBaseContext None None) no_maps))
    (NewBaseContext None None)
    = AnyString "There was an error while executing step s2: the step does not exist"
  ∧ Output test_workflow
      (event_of (TakeStep test_workflow "firstStep" mockEvent
                   (NewBaseContext None None) no_maps))
      (NewBaseContext None None)
    = AnyString "hello world".
Proof.
  split.
  - apply (proj1 (Output_of_TakeStep test_workflow "s2" mockEvent
                    (NewBaseContext None None) (NewBaseContext None None) no_maps)).
    reflexivity.
  - apply (proj2 (Output_of_TakeStep test_workflow "firstStep" mockEvent
                    (NewBaseContext None None) (NewBaseContext None None) no_maps)
             mockStep "hello world"); reflexivity.
Defined.

(** * Further properties of the dispatch loop *)

Lemma Output_terminal (wf : BaseWorkflow) (e : BaseEvent) (c : BaseContext) :
  NextStep e = "end" →
  Output wf e c
    = default (AnyString "No output produced") (AnyString <$> Data e !! "output").
Proof.
  intros Hend. unfold Output, Get. rewrite decide_True by done.
  by destruct (Data e !! "output").
Qed.


Section loop_facts.
Context {Obs : Type}.
Variables onStart onEnd : BaseEvent → Obs → Obs.
Variable onOutput : any → Obs → Obs.

(** Entered with a terminal event, the loop makes one iteration. *)
Lemma Run_loop_terminal (wf : BaseWorkflow) (fuel : nat) (e : BaseEvent)
    (c : BaseContext) (h : heap) (obs : Obs) :
  NextStep e = "end" →
  Run_loop (S fuel) wf e c h onStart onEnd onOutput obs
    = Some (c, h, onOutput (Output wf e c) (onStart e obs)).
Proof. intros Hend. by rewrite Run_loop_S, decide_True. Qed.

(** The loop looks up no name but the labels of non-terminal events. *)
Lemma Run_loop_steps_ext (wf wf' : BaseWorkflow) (fuel : nat) (e : BaseEvent)
    (c : BaseContext) (h : heap) (obs : Obs) :
  (∀ name, name ≠ "end" → Steps wf !! name = Steps wf' !! name) →
  Run_loop fuel wf e c h onStart onEnd onOutput obs
    = Run_loop fuel wf' e c h onStart onEnd onOutput obs.
Proof.
  intros Hsteps. revert e c h obs.
  induction fuel as [|fuel IH]; intros e c h obs; [done|].
  rewrite !Run_loop_S. destruct (decide (NextStep e = "end")) as [Hend|Hne]; [done|].
  unfold TakeStep. rewrite (Hsteps _ Hne).
  destruct (match Steps wf' !! NextStep e with
            | Some step => step e c h
            | None => _
            end) as [[e1 c1] h1].
  apply IH.
Qed.


(** X8: when [FirstStep] is not a key of the step table (as for
    [FirstStep = "end"] on a workflow that validates), [Run] returns after
    one iteration: [onStart] receives the synthesized terminal event,
    [onOutput] the message that names the first step, [onEnd] nothing, and
    the context and the map objects are as they were. *)
Theorem Run_missing_first_step (wf : BaseWorkflow) (inputEvent : BaseEvent)
    (ctx : BaseContext) (h : heap) (fuel : nat) (obs : Obs) :
  Steps wf !! FirstStep wf = None →
  Run (S fuel) wf inputEvent ctx h onStart onEnd onOutput obs
    = Some (ctx, h,
            onOutput (AnyString (missing_step_message (FirstStep wf)))
              (onStart (NewBaseEvent "end"
                          {[ "output" := missing_step_message (FirstStep wf) ]}) obs)).
Proof.
  intros Hnone. unfold Run. rewrite TakeStep_missing by done.
  rewrite Run_loop_terminal by done.
  rewrite Output_terminal by done. cbn [Data NewBaseEvent].
  by rewrite lookup_singleton_eq.
Qed.

(** X9: when the loop holds an event whose label is neither ["end"] nor a
    key of the step table, it returns after two iterations: the dispatch
    yields the synthesized terminal event, which [onEnd] and then [onStart]
    receive, [onOutput] receives the message that names the missing step,
    and the context and the map objects are as they were. *)
Theorem Run_loop_missing_next_step (wf : BaseWorkflow) (e : BaseEvent)
    (ctx : BaseContext) (h : heap) (fuel : nat) (obs : Obs) :
  NextStep e ≠ "end" → Steps wf !! NextStep e = None →
  let lost := NewBaseEvent "end" {[ "output" := missing_step_message (NextStep e) ]} in
  Run_loop (S (S fuel)) wf e ctx h onStart onEnd onOutput obs
    = Some (ctx, h,
            onOutput (AnyString (missing_step_message (NextStep e)))
              (onStart lost (onEnd lost (onStart e obs)))).
Proof.
  intros Hne Hnone lost. rewrite Run_loop_S, decide_False by done.
  rewrite TakeStep_missing by done. cbv beta iota.
  rewrite Run_loop_terminal by done.
  rewrite Output_terminal by done. cbn [Data NewBaseEvent].
  by rewrite lookup_singleton_eq.
Qed.

(** X10: the loop never dispatches a step registered under ["end"]: two
    step tables that agree on every other name give the same loop, and the
    same [Run] when the first step is not ["end"]. *)
Theorem Run_ignores_end_step (wf wf' : BaseWorkflow) (fuel : nat) (e inputEvent : BaseEvent)
    (ctx : BaseContext) (h : heap) (obs : Obs) :
  (∀ name, name ≠ "end" → Steps wf !! name = Steps wf' !! name) →
  Run_loop fuel wf e ctx h onStart onEnd onOutput obs
    = Run_loop fuel wf' e ctx h onStart onEnd onOutput obs
  ∧ (FirstStep wf = FirstStep wf' → FirstStep wf ≠ "end" →
       Run fuel wf inputEvent ctx h onStart onEnd onOutput obs
         = Run fuel wf' inputEvent ctx h onStart onEnd onOutput obs).
Proof.
  intros Hsteps. split; [by apply Run_loop_steps_ext|].
  intros Hfirst Hne. unfold Run, TakeStep. rewrite <- Hfirst, (Hsteps _ Hne).
  destruct (match Steps wf' !! FirstStep wf with
            | Some step => step inputEvent ctx h
            | None => _
            end) as [[e0 c0] h0].
  by apply Run_loop_steps_ext.
Qed.

(** X11: the [Context] field of a workflow is used by none of its
    methods: [Validate], [TakeStep], [Output] and [Run] give the same
    results whatever context the workflow was built with; steps only
    receive the context given to [Run] or [TakeStep]. *)
Theorem workflow_Context_unused (wf : BaseWorkflow) (c0 : BaseContext) :
  let wf' := NewBaseWorkflow (FirstStep wf) c0 (Steps wf) in
  Validate wf' = Validate wf
  ∧ (∀ name ev c h, TakeStep wf' name ev c h = TakeStep wf name ev c h)
  ∧ (∀ ev c, Output wf' ev c = Output wf ev c)
  ∧ ∀ fuel inputEvent ctx h obs,
      Run fuel wf' inputEvent ctx h onStart onEnd onOutput obs
        = Run fuel wf inputEvent ctx h onStart onEnd onOutput obs.
Proof.
  intros wf'. split; [by rewrite !Validate_cases|].
  split; [done|]. split; [done|].
  intros fuel inputEvent ctx h obs. unfold Run.
  change (TakeStep wf' (FirstStep wf') inputEvent ctx h)
    with (TakeStep wf (FirstStep wf) inputEvent ctx h).
  destruct (TakeStep wf (FirstStep wf) inputEvent ctx h) as [[e0 c1] h1].
  by apply Run_loop_steps_ext.
Qed.
End loop_facts.

Lemma Run_missing_first_step_witness :
  Run 1 dangling_workflow mockEvent (NewBaseContext None None) no_maps
    logStart logEnd logOutput []
  = Some (NewBaseContext None None, no_maps,
          [OnEventStart
             (NewBaseEvent "end"
                {[ "output" := "There was an error while executing step missing: the step does not exist" ]});
           OnOutput
             (AnyString "There was an error while executing step missing: the step does not exist")]).
Proof.
  apply (Run_missing_first_step logStart logEnd logOutput dangling_workflow mockEvent
           (NewBaseContext None None) no_maps 0 []).
  reflexivity.
Defined.

Lemma Run_loop_missing_next_step_witness :
  Run_loop 2 dangling_workflow (NewBaseEvent "nowhere" ∅) (NewBaseContext None None)
    no_maps logStart logEnd logOutput []
  = Some (NewBaseContext None None, no_maps,
          logOutput
            (AnyString "There was an error while executing step nowhere: the step does not exist")
            (logStart
               (NewBaseEvent "end"
                  {[ "output" := "There was an error while executing step nowhere: the step does not exist" ]})
               (logEnd
                  (NewBaseEvent "end"
                     {[ "output" := "There was an error while executing step nowhere: the step does not exist" ]})
                  (logStart (NewBaseEvent "nowhere" ∅) [])))).
Proof.
  apply (Run_loop_missing_next_step logStart logEnd logOutput dangling_workflow
           (NewBaseEvent "nowhere" ∅) (NewBaseContext None None) no_maps 0 []).
  - discriminate.
  - reflexivity.
Defined.

Lemma Run_ignores_end_step_witness :
  Run 1 test_workflow mockEvent (NewBaseContext None None) no_maps
    logStart logEnd logOutput []
  = Run 1 (NewBaseWorkflow "firstStep" (NewBaseContext None None)
             (<[ "end" := spinStep ]> {[ "firstStep" := mockStep ]}))
      mockEvent (NewBaseContext None None) no_maps logStart logEnd logOutput [].
Proof.
  destruct (Run_ignores_end_step logStart logEnd logOutput test_workflow
              (NewBaseWorkflow "firstStep" (NewBaseContext None None)
                 (<[ "end" := spinStep ]> {[ "firstStep" := mockStep ]}))
              1 mockEvent mockEvent (NewBaseContext None None) no_maps [])
    as [_ Hrun].
  - intros name Hne. cbn [Steps NewBaseWorkflow test_workflow].
    by rewrite lookup_insert_ne.
  - apply Hrun; [reflexivity | discriminate].
Defined.

Section loop_invariants.
Context {Obs : Type}.
Variables onStart onEnd : BaseEvent → Obs → Obs.
Variable onOutput : any → Obs → Obs.

(** X12: the engine itself never writes the context: a property of the
    context fields and map objects that every step of the table preserves,
    and that holds when [Run] is called, holds when [Run] returns.  In
    particular, when no step changes the context or a map object, [Run]
    returns with both as they were given. *)
Theorem Run_preserves_step_invariant (P : BaseContext → heap → Prop)
    (wf : BaseWorkflow) (inputEvent : BaseEvent) (ctx : BaseContext) (h : heap)
    (fuel : nat) (obs : Obs) (ctx' : BaseContext) (h' : heap) (obs' : Obs) :
  (∀ name step ev c hh, Steps wf !! name = Some step → P c hh →
     P (context_of (step ev c hh)) (heap_of (step ev c hh))) →
  P ctx h →
  Run fuel wf inputEvent ctx h onStart onEnd onOutput obs = Some (ctx', h', obs') →
  P ctx' h'.
Proof.
  intros Hsteps Hinit.
  assert (∀ name ev c hh, P c hh →
            P (context_of (TakeStep wf name ev c hh)) (heap_of (TakeStep wf name ev c hh)))
    as Htake.
  { intros name ev c hh HP. unfold TakeStep.
    destruct (Steps wf !! name) as [step|] eqn:Hlook; [by eapply Hsteps | done]. }
  assert (∀ n s, P (context_of s) (heap_of s) →
            P (context_of (chain_from wf n s)) (heap_of (chain_from wf n s)))
    as Hchain.
  { induction n as [|n IH]; intros s HP; [done|].
    cbn [chain_from]. apply IH. by apply Htake. }
  unfold Run.
  destruct (TakeStep wf (FirstStep wf) inputEvent ctx h) as [[e0 c0] h0] eqn:Hfirst.
  intros (n & _ & _ & _ & -> & -> & _)%Run_loop_sound.
  apply Hchain. cbn.
  specialize (Htake (FirstStep wf) inputEvent ctx h Hinit).
  by rewrite Hfirst in Htake.
Qed.

(** X13: the value [Run] hands to [onOutput] is the ["output"] entry of
    the terminal event when there is one and ["No output produced"]
    otherwise, in both cases a string: inside [Run] the
    ["Not an output step"] branch of [Output] is never taken. *)
Theorem Run_output_value (wf : BaseWorkflow) (inputEvent : BaseEvent)
    (ctx : BaseContext) (h : heap) (fuel : nat) (obs : Obs)
    (ctx' : BaseContext) (h' : heap) (obs' : Obs) :
  Run fuel wf inputEvent ctx h onStart onEnd onOutput obs = Some (ctx', h', obs') →
  ∃ n,
    let ev i := event_of (produced wf inputEvent ctx h i) in
    let calls := calls_of wf (ev 0) (ev <$> seq 1 n) ctx' in
    obs' = invoke_all onStart onEnd onOutput calls obs
    ∧ NextStep (ev n) = "end"
    ∧ outputs_of calls
      = [default (AnyString "No output produced")
           (AnyString <$> Data (ev n) !! "output")].
Proof.
  unfold Run, produced.
  destruct (TakeStep wf (FirstStep wf) inputEvent ctx h) as [[e0 c0] h0].
  intros (n & _ & _ & Hlast & _ & _ & ->)%Run_loop_sound.
  exists n. cbn zeta.
  change ((λ i, event_of (chain_from wf i (e0, c0, h0))) <$> seq 1 n)
    with (later_events wf n (e0, c0, h0)).
  change (event_of (chain_from wf 0 (e0, c0, h0))) with e0.
  split; [done|]. split; [done|].
  rewrite <- (Output_terminal wf _ ctx') by done.
  exact (outputs_of_calls_of wf n (e0, c0, h0) _).
Qed.

(** X14: [Run] does not validate: on a workflow whose first step is
    ["end"] and whose table has a step under ["end"], which [Validate]
    rejects, [Run] dispatches that step, and returns after one iteration
    when the step returns a terminal event. *)
Theorem Run_does_not_validate (wf : BaseWorkflow) (step : StepFunc)
    (inputEvent : BaseEvent) (ctx : BaseContext) (h : heap) (fuel : nat) (obs : Obs) :
  FirstStep wf = "end" → Steps wf !! "end" = Some step →
  Validate wf = (false, reserved_keyword_error)
  ∧ produced wf inputEvent ctx h 0 = step inputEvent ctx h
  ∧ (NextStep (event_of (step inputEvent ctx h)) = "end" →
       Run (S fuel) wf inputEvent ctx h onStart onEnd onOutput obs
         = Some (context_of (step inputEvent ctx h), heap_of (step inputEvent ctx h),
                 onOutput (Output wf (event_of (step inputEvent ctx h))
                             (context_of (step inputEvent ctx h)))
                   (onStart (event_of (step inputEvent ctx h)) obs))).
Proof.
  intros Hfirst Hstep.
  assert (TakeStep wf (FirstStep wf) inputEvent ctx h = step inputEvent ctx h) as Htake.
  { unfold TakeStep. by rewrite Hfirst, Hstep. }
  split; [|split].
  - rewrite Validate_cases, decide_True; [done | by eexists].
  - unfold produced. by cbn [chain_from].
  - intros Hend. unfold Run. rewrite Htake.
    destruct (step inputEvent ctx h) as [[e0 c0] h0]. cbn in Hend |- *.
    by apply Run_loop_terminal.
Qed.

End loop_invariants.

Lemma Run_preserves_step_invariant_witness :
  Run 1 test_workflow mockEvent (NewBaseContext None None) no_maps
    logStart logEnd logOutput []
  = Some (NewBaseContext None None, no_maps,
          [OnEventStart (NewBaseEvent "end" {[ "output" := "hello world" ]});
           OnOutput (AnyString "hello world")])
  ∧ Store (NewBaseContext None None) = None ∧ no_maps 1%positive = ∅.
Proof.
  split; [reflexivity|].
  apply (Run_preserves_step_invariant logStart logEnd logOutput
           (λ c hh, Store c = None ∧ hh 1%positive = ∅)
           test_workflow mockEvent (NewBaseContext None None) no_maps 1 []
           (NewBaseContext None None) no_maps
           [OnEventStart (NewBaseEvent "end" {[ "output" := "hello world" ]});
            OnOutput (AnyString "hello world")]).
  - intros name step ev c hh Hlook HP.
    unfold test_workflow in Hlook. cbn [Steps NewBaseWorkflow] in Hlook.
    apply lookup_singleton_Some in Hlook as [_ <-]. exact HP.
  - split; reflexivity.
  - reflexivity.
Defined.

Lemma Run_output_value_witness :
  ∃ n,
    NextStep (event_of (produced test_workflow mockEvent
                          (NewBaseContext None None) no_maps n)) = "end".
Proof.
  destruct (Run_output_value logStart logEnd logOutput test_workflow mockEvent
              (NewBaseContext None None) no_maps 1 []
              (NewBaseContext None None) no_maps
              [OnEventStart (NewBaseEvent "end" {[ "output" := "hello world" ]});
               OnOutput (AnyString "hello world")] eq_refl)
    as (n & _ & Hlast & _).
  exists n. exact Hlast.
Defined.

Lemma Run_does_not_validate_witness :
  Validate (NewBaseWorkflow "end" (NewBaseContext None None) {[ "end" := mockStep ]})
    = (false, reserved_keyword_error)
  ∧ Run 1 (NewBaseWorkflow "end" (NewBaseContext None None) {[ "end" := mockStep ]})
      mockEvent (NewBaseContext None None) no_maps logStart logEnd logOutput []
    = Some (NewBaseContext None None, no_maps,
            [OnEventStart (NewBaseEvent "end" {[ "output" := "hello world" ]});
             OnOutput (AnyString "hello world")]).
Proof.
  destruct (Run_does_not_validate logStart logEnd logOutput
              (NewBaseWorkflow "end" (NewBaseContext None None) {[ "end" := mockStep ]})
              mockStep mockEvent (NewBaseContext None None) no_maps 0 [])
    as (Hinvalid & _ & Hrun); [reflexivity | reflexivity |].
  split; [exact Hinvalid|]. apply Hrun. reflexivity.
Defined.

